(** * Hive SDK and dispatcher protocol

    A shallow embedding of [packages/sdk/src/index.ts] (the [HiveClient]
    HTTP client, in its undici-based and its fetch-based revision, and the
    two Next.js route factories), followed by a model of the dispatcher's
    queue and claim protocol, which the repository documents but does not
    contain yet ([apps/dispatcher] is announced as upcoming).

    Conventions.
    - A JavaScript value that travels as JSON is a [json] tree. Numbers are
      restricted to integers (queue lengths, counters); objects keep their
      keys in insertion order.
    - An [async] function is a computation in the [Promise] monad: it
      threads the list of HTTP requests put on the wire so far and settles
      either fulfilled with a value or rejected with a thrown error.
    - A header bag ([Record<string, string>]) is a [gmap string string]. *)

From Stdlib Require Import Ascii.
From stdpp Require Import gmap strings list fin_maps pretty.

#[local] Set Warnings "-register-all".

Local Open Scope string_scope.
Local Open Scope N_scope.

(* ===================================================================== *)
(** * JSON values *)
(* ===================================================================== *)

Module Json.

Inductive json : Type :=
| JNull
| JBool (b : bool)
| JNum (n : Z)
| JStr (s : string)
| JArr (items : list json)
| JObj (fields : list (string * json)).

(** Own-property read on an object literal; [None] is [undefined]. *)
Fixpoint assoc (k : string) (fields : list (string * json)) : option json :=
  match fields with
  | [] => None
  | (k', v) :: rest => if String.eqb k k' then Some v else assoc k rest
  end.

(** JavaScript truthiness of a value that may be [undefined]. *)
Definition truthy (v : option json) : bool :=
  match v with
  | None => false
  | Some JNull => false
  | Some (JBool b) => b
  | Some (JNum n) => negb (Z.eqb n 0)
  | Some (JStr s) => negb (String.eqb s "")
  | Some (JArr _) => true
  | Some (JObj _) => true
  end.

(** The double quote and the backslash, by code. *)
Definition dquote : ascii := "034"%char.
Definition backslash : ascii := "092"%char.

Definition hex_digit (d : N) : ascii :=
  match d with
  | 0 => "0" | 1 => "1" | 2 => "2" | 3 => "3" | 4 => "4"
  | 5 => "5" | 6 => "6" | 7 => "7" | 8 => "8" | 9 => "9"
  | 10 => "a" | 11 => "b" | 12 => "c" | 13 => "d" | 14 => "e"
  | _ => "f"
  end%char.

(** [QuoteJSONString], one code unit at a time. *)
Definition escape_char (c : ascii) : string :=
  let n := N_of_ascii c in
  if Ascii.eqb c dquote then String backslash (String dquote "")
  else if Ascii.eqb c backslash then String backslash (String backslash "")
  else if N.eqb n 8 then String backslash "b"
  else if N.eqb n 9 then String backslash "t"
  else if N.eqb n 10 then String backslash "n"
  else if N.eqb n 12 then String backslash "f"
  else if N.eqb n 13 then String backslash "r"
  else if N.ltb n 32 then
    String backslash
      (String "u" (String "0" (String "0"
         (String (hex_digit (n / 16)) (String (hex_digit (n mod 16)) "")))))
  else String c "".

Fixpoint escape (s : string) : string :=
  match s with
  | "" => ""
  | String c rest => escape_char c +:+ escape rest
  end.

Definition quote (s : string) : string :=
  String dquote (escape s) +:+ String dquote "".

Definition number (n : Z) : string :=
  match n with
  | Z0 => "0"
  | Zpos p => pretty (Npos p)
  | Zneg p => "-" +:+ pretty (Npos p)
  end.

(** [JSON.stringify] without indentation. *)
Fixpoint JSON_stringify (v : json) : string :=
  match v with
  | JNull => "null"
  | JBool true => "true"
  | JBool false => "false"
  | JNum n => number n
  | JStr s => quote s
  | JArr items =>
      let fix elems (l : list json) : string :=
        match l with
        | [] => ""
        | [x] => JSON_stringify x
        | x :: rest => JSON_stringify x +:+ "," +:+ elems rest
        end in
      "[" +:+ elems items +:+ "]"
  | JObj fields =>
      let fix members (l : list (string * json)) : string :=
        match l with
        | [] => ""
        | [(k, x)] => quote k +:+ ":" +:+ JSON_stringify x
        | (k, x) :: rest =>
            quote k +:+ ":" +:+ JSON_stringify x +:+ "," +:+ members rest
        end in
      "{" +:+ members fields +:+ "}"
  end.

End Json.
Import Json.

(* ===================================================================== *)
(** * The zod schema of a job payload *)
(* ===================================================================== *)

Module Zod.
Section WithUrlCheck.

(** [z.string().url()] asks the platform's URL parser whether the text is
    an absolute URL; that parser is not part of the repository. *)
Variable isUrl : string -> bool.

(** Each checker reads a property that may be [undefined] ([None]). *)
Definition z_string (v : option json) : bool :=
  match v with Some (JStr _) => true | _ => false end.

Definition z_string_url (v : option json) : bool :=
  match v with Some (JStr s) => isUrl s | _ => false end.

Definition z_enum (values : list string) (v : option json) : bool :=
  match v with
  | Some (JStr s) => existsb (String.eqb s) values
  | _ => false
  end.

Definition z_record_unknown (v : option json) : bool :=
  match v with Some (JObj _) => true | _ => false end.

Definition z_optional (inner : option json -> bool) (v : option json) : bool :=
  match v with None => true | Some _ => inner v end.

(** [EnqueueSchema.safeParse(v).success]. *)
Definition EnqueueSchema (v : json) : bool :=
  match v with
  | JObj o =>
      z_string (assoc "jobId" o)
      && z_enum ["agent"; "script"; "custom"] (assoc "task" o)
      && z_string (assoc "instructions" o)
      && z_optional z_string_url (assoc "repo" o)
      && z_optional z_string (assoc "branch" o)
      && z_optional z_string (assoc "base" o)
      && z_optional z_string (assoc "githubToken" o)
      && z_optional z_record_unknown (assoc "metadata" o)
  | _ => false
  end.

End WithUrlCheck.
End Zod.

(* ===================================================================== *)
(** * HTTP, thrown errors and promises *)
(* ===================================================================== *)

Module Http.

Inductive Method := GET | POST.

Record RequestInit := {
  method : Method;
  headers : gmap string string;    (* [∅] when the property is left out *)
  body : option string;
}.

Record Request := { url : string; init : RequestInit }.

(** What the two readers of a body make of it: [text()] yields [raw],
    [json()] yields [parsed], the verdict of [JSON.parse] on [raw]
    ([None] when it throws); a broken stream fails both. *)
Inductive Body :=
| BodyBroken
| BodyText (raw : string) (parsed : option json).

Record HttpResponse := {
  status : N;
  statusText : string;
  payload : Body;
}.

(** [res.ok]. *)
Definition ok (res : HttpResponse) : bool :=
  (200 <=? status res) && (status res <=? 299).

Inductive Thrown :=
| NetworkFailure                (* the request never got an answer *)
| StreamFailure                 (* the body could not be read *)
| SyntaxError                   (* JSON.parse *)
| TypeError                     (* property read on null *)
| Error (message : string).     (* new Error(message) *)

Inductive Settled (A : Type) :=
| Fulfilled (a : A)
| Rejected (e : Thrown).
Arguments Fulfilled {A} a.
Arguments Rejected {A} e.

(** The wire is the list of requests sent so far, oldest first. *)
Definition Promise (A : Type) : Type :=
  list Request -> Settled A * list Request.

Definition resolve {A} (a : A) : Promise A := fun wire => (Fulfilled a, wire).

Definition throw {A} (e : Thrown) : Promise A := fun wire => (Rejected e, wire).

Definition await {A B} (p : Promise A) (k : A -> Promise B) : Promise B :=
  fun wire =>
    match p wire with
    | (Fulfilled a, wire') => k a wire'
    | (Rejected e, wire') => (Rejected e, wire')
    end.

(** [p.catch(handler)]. *)
Definition catch {A} (p : Promise A) (handler : Thrown -> Promise A) : Promise A :=
  fun wire =>
    match p wire with
    | (Fulfilled a, wire') => (Fulfilled a, wire')
    | (Rejected e, wire') => handler e wire'
    end.

(** The dispatcher as seen from the client: its answer to a request, or
    [None] when the connection fails. *)
Definition Network : Type := Request -> option HttpResponse.

(** [fetch(url, init)] and undici's [request(url, init)]: neither rejects
    on a non-2xx status. *)
Definition send (net : Network) (url : string) (init : RequestInit)
  : Promise HttpResponse :=
  fun wire =>
    let req := {| url := url; init := init |} in
    (match net req with
     | Some res => Fulfilled res
     | None => Rejected NetworkFailure
     end, (wire ++ [req])%list).

Definition text (res : HttpResponse) : Promise string :=
  match payload res with
  | BodyBroken => throw StreamFailure
  | BodyText raw _ => resolve raw
  end.

Definition json_of (b : Body) : Promise json :=
  match b with
  | BodyBroken => throw StreamFailure
  | BodyText _ None => throw SyntaxError
  | BodyText _ (Some v) => resolve v
  end.

End Http.
Import Http.

Notation "'let!' x ':=' p 'in' k" := (await p (fun x => k))
  (at level 10, x name, p at level 100, k at level 200).

(* ===================================================================== *)
(** * packages/sdk/src/index.ts *)
(* ===================================================================== *)

Module Sdk.

(** [baseUrl.replace(/\/$/, "")]: one trailing slash is dropped. *)
Fixpoint normalizeBaseUrl (baseUrl : string) : string :=
  match baseUrl with
  | "" => ""
  | String c "" => if Ascii.eqb c "/" then "" else String c ""
  | String c rest => String c (normalizeBaseUrl rest)
  end.

(** The file exists in two revisions that differ in [requestJson] and in
    how [envClient] reads the environment. *)
Inductive Revision := Undici | Fetch.

Module UndiciRev.
Definition requestJson (net : Network) (url : string) (init : RequestInit)
  : Promise json :=
  let! response := send net url init in
  let! body := json_of (payload response) in
  resolve body.
End UndiciRev.

Module FetchRev.
Definition requestJson (net : Network) (url : string) (init : RequestInit)
  : Promise json :=
  let! res := send net url init in
  if negb (ok res) then
    let! text := catch (text res) (fun _ => resolve "") in
    throw (Error ("HTTP " +:+ pretty (status res) +:+ " "
                    +:+ statusText res +:+ ": " +:+ text))
  else json_of (payload res).
End FetchRev.

Definition requestJson (rev : Revision) : Network -> string -> RequestInit -> Promise json :=
  match rev with
  | Undici => UndiciRev.requestJson
  | Fetch => FetchRev.requestJson
  end.

Record Options := {
  opt_internalToken : option string;
  opt_callbackSecret : option string;
}.

Record HiveClient := {
  baseUrl : string;
  internalToken : option string;
  callbackSecret : option string;
}.

(** The constructor. *)
Definition new_HiveClient (baseUrl : string) (options : Options) : HiveClient :=
  {| baseUrl := normalizeBaseUrl baseUrl;
     internalToken := opt_internalToken options;
     callbackSecret := opt_callbackSecret options |}.

(** Truthiness of a string: only the empty string is falsy. *)
Definition truthy_string (s : string) : bool := negb (String.eqb s "").

Definition json_headers : gmap string string :=
  {["content-type" := "application/json"]}.

(** What a route handler returns: [new Response(body, {status, headers})]. *)
Record Response := {
  r_status : N;
  r_headers : gmap string string;
  r_body : string;
}.

Section Methods.
Variable rev : Revision.
Variable net : Network.

Definition health (c : HiveClient) : Promise json :=
  requestJson rev net (baseUrl c +:+ "/health")
    {| method := GET; headers := ∅; body := None |}.

Definition enqueue (c : HiveClient) (job : json) : Promise json :=
  let headers := json_headers in
  let headers :=
    match internalToken c with
    | Some token =>
        if truthy_string token
        then <["authorization" := "Bearer " +:+ token]> headers
        else headers
    | None => headers                  (* undefined is falsy *)
    end in
  requestJson rev net (baseUrl c +:+ "/enqueue")
    {| method := POST; headers := headers; body := Some (JSON_stringify job) |}.

Definition claim (c : HiveClient) : Promise json :=
  requestJson rev net (baseUrl c +:+ "/claim")
    {| method := POST; headers := ∅; body := None |}.

Definition callback (c : HiveClient) (payload : json) : Promise json :=
  let headers := json_headers in
  let headers :=
    match callbackSecret c with
    | Some secret =>
        if truthy_string secret
        then <["x-callback-secret" := secret]> headers
        else headers
    | None => headers                  (* undefined is falsy *)
    end in
  requestJson rev net (baseUrl c +:+ "/callback")
    {| method := POST; headers := headers; body := Some (JSON_stringify payload) |}.

Definition createNextClaimRoute (c : HiveClient) : Promise Response :=
  let! data := claim c in
  resolve {| r_status := 200;
             r_headers := json_headers;
             r_body := JSON_stringify data |}.

(** [data.ok]: reading a property of [null] throws, a value that has no
    such property gives [undefined]. *)
Definition data_ok (data : json) : Promise (option json) :=
  match data with
  | JNull => throw TypeError
  | JObj o => resolve (assoc "ok" o)
  | _ => resolve None
  end.

(** [req] is the incoming request, seen through its [json()] reader. *)
Definition createNextCallbackRoute (c : HiveClient) (req : Body) : Promise Response :=
  let! body := json_of req in
  let! data := callback c body in
  let text := JSON_stringify data in
  let! ok := data_ok data in
  resolve {| r_status := if truthy ok then 200 else 401;
             r_headers := json_headers;
             r_body := text |}.

End Methods.

(** [envClient()], over the process environment. *)
Definition envClient (env : string -> option string) : HiveClient :=
  let baseUrl := default "http://localhost:8099" (env "HIVE_BASE_URL") in
  new_HiveClient baseUrl
    {| opt_internalToken := env "HIVE_INTERNAL_TOKEN";
       opt_callbackSecret := env "HIVE_CALLBACK_SECRET" |}.

(** The four calls of the client, as data. *)
Inductive Call :=
| Health
| Enqueue (job : json)
| Claim
| Callback (payload : json).

Definition run (rev : Revision) (net : Network) (c : HiveClient) (call : Call)
  : Promise json :=
  match call with
  | Health => health rev net c
  | Enqueue job => enqueue rev net c job
  | Claim => claim rev net c
  | Callback payload => callback rev net c payload
  end.

(** Whether [needle] occurs in [hay]. *)
Fixpoint contains (needle hay : string) : bool :=
  String.prefix needle hay
  || match hay with
     | "" => false
     | String _ rest => contains needle rest
     end.

(** Whether a text occurs anywhere in what a request transmits. *)
Definition mentions (needle : string) (req : Request) : bool :=
  contains needle (url req)
  || existsb (fun kv => contains needle (fst kv) || contains needle (snd kv))
       (map_to_list (headers (init req)))
  || match body (init req) with
     | Some b => contains needle b
     | None => false
     end.

End Sdk.
Import Sdk.


(* ===================================================================== *)
(** * Reading the environment, in either revision *)
(* ===================================================================== *)

Module Runtime.

(** [globalThis] as far as [envClient] looks at it. A browser or an edge
    runtime has no [process]; a [process] may lack [env]. *)
Record Process := { env : option (string -> option string) }.

Record GlobalThis := { process : option Process }.

(** What the bare read [process.env.NAME] throws: [process] is not
    defined, or [process.env] is undefined. *)
Inductive EnvThrown := ReferenceError | EnvTypeError.

(** [readEnv(name)]: the optional chain [g?.process?.env?.[name]], with
    [?? undefined], inside a try block whose handler returns [undefined]. *)
Definition readEnv (g : GlobalThis) (name : string) : option string :=
  match process g with
  | None => None
  | Some p =>
      match env p with
      | None => None
      | Some vars => vars name
      end
  end.

(** [process.env], read without a guard. *)
Definition process_env (g : GlobalThis) : EnvThrown + (string -> option string) :=
  match process g with
  | None => inl ReferenceError
  | Some p =>
      match env p with
      | None => inl EnvTypeError
      | Some vars => inr vars
      end
  end.

Module UndiciRev.
(** [envClient()] of the undici-based revision. *)
Definition envClient (g : GlobalThis) : EnvThrown + HiveClient :=
  match process_env g with
  | inl thrown => inl thrown
  | inr vars =>
      let baseUrl := default "http://localhost:8099" (vars "HIVE_BASE_URL") in
      inr (new_HiveClient baseUrl
             {| opt_internalToken := vars "HIVE_INTERNAL_TOKEN";
                opt_callbackSecret := vars "HIVE_CALLBACK_SECRET" |})
  end.
End UndiciRev.

Module FetchRev.
(** [envClient()] of the fetch-based revision. *)
Definition envClient (g : GlobalThis) : HiveClient :=
  let baseUrl := default "http://localhost:8099" (readEnv g "HIVE_BASE_URL") in
  new_HiveClient baseUrl
    {| opt_internalToken := readEnv g "HIVE_INTERNAL_TOKEN";
       opt_callbackSecret := readEnv g "HIVE_CALLBACK_SECRET" |}.
End FetchRev.

End Runtime.

(* ===================================================================== *)
(** * The static type of a job payload *)
(* ===================================================================== *)

Module Typed.

(** [EnqueueBody = z.infer<typeof EnqueueSchema>]: what the type checker
    admits as argument of [enqueue]. *)
Inductive Task := agent | script | custom.

Record EnqueueBody := {
  jobId : string;
  task : Task;
  instructions : string;
  repo : option string;
  branch : option string;
  base : option string;
  githubToken : option string;
  metadata : option (list (string * json));
}.

Definition task_name (t : Task) : string :=
  match t with
  | agent => "agent"
  | script => "script"
  | custom => "custom"
  end.

(** An optional property: present when given, absent otherwise. *)
Definition property (k : string) (v : option json) : list (string * json) :=
  match v with
  | Some x => [(k, x)]
  | None => []
  end.

(** The object that a value of the type is at run time. *)
Definition to_json (b : EnqueueBody) : json :=
  JObj ([("jobId", JStr (jobId b));
         ("task", JStr (task_name (task b)));
         ("instructions", JStr (instructions b))]
        ++ property "repo" (JStr <$> repo b)
        ++ property "branch" (JStr <$> branch b)
        ++ property "base" (JStr <$> base b)
        ++ property "githubToken" (JStr <$> githubToken b)
        ++ property "metadata" (JObj <$> metadata b))%list.

End Typed.

(** The property names that [EnqueueSchema] reads. *)
Definition schema_keys : list string :=
  ["jobId"; "task"; "instructions"; "repo"; "branch"; "base";
   "githubToken"; "metadata"].

(** The optional ones among them. *)
Definition optional_keys : list string :=
  ["repo"; "branch"; "base"; "githubToken"; "metadata"].

(* ===================================================================== *)
(** * The dispatcher's queue and claim protocol *)
(* ===================================================================== *)

Module Dispatcher.

(** Modelled from the spec: the dispatcher ([apps/dispatcher]) is not in
    the repository; the data model below follows the specification's
    sections on the data model and on the queue, the claim coordinator and
    the status tracker. Claim identifiers are drawn from a counter, so
    that each one is fresh; time stamps are supplied by the caller. *)

Inductive Task := agent | script | custom.

(** Modelled from the spec: a job as submitted (section 3); [metadata] is
    the open mapping, empty when none is given. *)
Record Job := {
  jobId : string;
  task : Task;
  instructions : string;
  repo : option string;
  branch : option string;
  base : option string;
  githubToken : option string;
  metadata : gmap string json;
}.

Inductive Lifecycle := pending | claimed | running | succeeded | failed.

(** The statuses a worker may report. *)
Inductive Status := Running | Succeeded | Failed.

Definition lifecycle_of (st : Status) : Lifecycle :=
  match st with
  | Running => running
  | Succeeded => succeeded
  | Failed => failed
  end.

Definition terminal (st : Status) : bool :=
  match st with
  | Running => false
  | Succeeded | Failed => true
  end.

(** Modelled from the spec: an entry of the job record store. *)
Record JobRecord := {
  job : Job;                       (* the submitted fields, never changed *)
  state : Lifecycle;
  logs : option string;
  merged : gmap string json;       (* metadata as merged by reports *)
}.

(** Modelled from the spec: what the coordinator records for a claim. *)
Record ClaimRecord := {
  claim_job : string;
  claim_worker : string;
  claim_time : N;
}.

(** Modelled from the spec: the dispatcher's state, that is the record
    store, the queue of pending identifiers, the active claims, the claims
    closed by a terminal report, and the counter of claim identifiers. *)
Record State := {
  store : gmap string JobRecord;
  queue : list string;
  active : gmap N ClaimRecord;
  closed : gset N;
  nextClaim : N;
}.

Definition init : State :=
  {| store := ∅; queue := []; active := ∅; closed := ∅; nextClaim := 1 |}.

Inductive Failure :=
| DuplicateJob
| UnknownClaim
| ClaimMismatch
| ClaimClosed
| InvariantViolation.

Definition result (A : Type) : Type := Failure + A.

(** Modelled from the spec: [enqueue] appends to the tail and fails with
    [DuplicateJob] when the identifier exists anywhere in the store; it
    answers with the new queue length. *)
Definition enqueue (j : Job) (s : State) : result nat * State :=
  match store s !! jobId j with
  | Some _ => (inl DuplicateJob, s)
  | None =>
      let r := {| job := j; state := pending; logs := None; merged := metadata j |} in
      let q := (queue s ++ [jobId j])%list in
      (inr (length q),
       {| store := <[jobId j := r]> (store s);
          queue := q;
          active := active s;
          closed := closed s;
          nextClaim := nextClaim s |})
  end.

(** Modelled from the spec: [claim] answers [None] (no job available) on
    an empty queue; otherwise, in one step, it removes the head, draws a
    fresh claim identifier, records the claim, moves the job to [claimed]
    and returns the job with the identifier. A queued identifier without
    a pending record is an internal invariant violation. *)
Definition claim (workerId : string) (now : N) (s : State)
  : result (option (Job * N)) * State :=
  match queue s with
  | [] => (inr None, s)
  | j :: rest =>
      match store s !! j with
      | Some r =>
          match state r with
          | pending =>
              let claimId := nextClaim s in
              let r' := {| job := job r; state := claimed;
                           logs := logs r; merged := merged r |} in
              (inr (Some (job r, claimId)),
               {| store := <[j := r']> (store s);
                  queue := rest;
                  active := <[claimId := {| claim_job := j;
                                            claim_worker := workerId;
                                            claim_time := now |}]> (active s);
                  closed := closed s;
                  nextClaim := claimId + 1 |})
          | _ => (inl InvariantViolation, s)
          end
      | None => (inl InvariantViolation, s)
      end
  end.

(** Modelled from the spec: [reportStatus] fails with [ClaimClosed] on a
    claim that was closed, with [UnknownClaim] on an identifier that names
    no active claim, with [ClaimMismatch] when the recorded worker is not
    the caller; otherwise it sets the job's state, replaces the logs when
    some are given, merges the metadata (new keys win) and, on a terminal
    status, closes the claim. *)
Definition reportStatus (claimId : N) (workerId : string) (st : Status)
    (new_logs : option string) (new_metadata : gmap string json) (s : State)
  : result unit * State :=
  if decide (claimId ∈ closed s) then (inl ClaimClosed, s)
  else
    match active s !! claimId with
    | None => (inl UnknownClaim, s)
    | Some cr =>
        if negb (String.eqb (claim_worker cr) workerId)
        then (inl ClaimMismatch, s)
        else
          match store s !! claim_job cr with
          | Some r =>
              match state r with
              | claimed | running =>
                  let r' := {| job := job r;
                               state := lifecycle_of st;
                               logs := match new_logs with
                                       | Some l => Some l
                                       | None => logs r
                                       end;
                               merged := new_metadata ∪ merged r |} in
                  (inr tt,
                   {| store := <[claim_job cr := r']> (store s);
                      queue := queue s;
                      active := if terminal st then delete claimId (active s)
                                else active s;
                      closed := if terminal st then {[claimId]} ∪ closed s
                                else closed s;
                      nextClaim := nextClaim s |})
              | _ => (inl InvariantViolation, s)
              end
          | None => (inl InvariantViolation, s)
          end
    end.

(** Any call on the dispatcher, and the state it leaves. *)
Inductive Op :=
| OpEnqueue (j : Job)
| OpClaim (workerId : string) (now : N)
| OpReport (claimId : N) (workerId : string) (st : Status)
    (new_logs : option string) (new_metadata : gmap string json).

Definition step (s : State) (op : Op) : State :=
  match op with
  | OpEnqueue j => snd (enqueue j s)
  | OpClaim w now => snd (claim w now s)
  | OpReport c w st l m => snd (reportStatus c w st l m s)
  end.

Definition run_ops (ops : list Op) (s : State) : State := foldl step s ops.

(** A run of [enqueue] calls, oldest first, with their answers. *)
Fixpoint enqueue_all (jobs : list Job) (s : State) : list (result nat) * State :=
  match jobs with
  | [] => ([], s)
  | j :: rest =>
      let '(a, s1) := enqueue j s in
      let '(answers, s2) := enqueue_all rest s1 in
      (a :: answers, s2)
  end.

(** A run of [claim] calls in the order in which they enter the critical
    section; each call comes with its worker and its time stamp. *)
Fixpoint claim_all (callers : list (string * N)) (s : State)
  : list (result (option (Job * N))) * State :=
  match callers with
  | [] => ([], s)
  | (w, now) :: rest =>
      let '(a, s1) := claim w now s in
      let '(answers, s2) := claim_all rest s1 in
      (a :: answers, s2)
  end.

(** The jobs, and the claim identifiers, that a run of claims granted. *)
Definition granted (answers : list (result (option (Job * N)))) : list (Job * N) :=
  omap (fun a => match a with inr (Some g) => Some g | _ => None end) answers.

(** The jobs waiting in the queue, head first. *)
Definition waiting (s : State) : list Job :=
  omap (fun j => job <$> store s !! j) (queue s).

(** The invariant of the reachable states. *)
Record wf (s : State) : Prop := {
  wf_keyed : forall j r, store s !! j = Some r -> jobId (job r) = j;
  wf_queued : forall j, j ∈ queue s ->
    exists r, store s !! j = Some r /\ state r = pending;
  wf_nodup : NoDup (queue s);
  wf_active : forall c cr, active s !! c = Some cr ->
    exists r, store s !! claim_job cr = Some r
              /\ (state r = claimed \/ state r = running);
  wf_one_claim : forall c1 c2 cr1 cr2,
    active s !! c1 = Some cr1 -> active s !! c2 = Some cr2 ->
    claim_job cr1 = claim_job cr2 -> c1 = c2;
  wf_active_old : forall c cr, active s !! c = Some cr -> (c < nextClaim s)%N;
  wf_closed_old : forall c, c ∈ closed s -> (c < nextClaim s)%N;
  wf_closed_gone : forall c, c ∈ closed s -> active s !! c = None;
}.

End Dispatcher.

(* ===================================================================== *)
(** * Concrete clients, answers and payloads *)
(* ===================================================================== *)

Module Samples.

Definition client : HiveClient :=
  new_HiveClient "http://localhost:8099/"
    {| opt_internalToken := Some "s3cret"; opt_callbackSecret := Some "hush" |}.

(** A client with an empty token and no callback secret. *)
Definition bare_client : HiveClient :=
  new_HiveClient "http://localhost:8099"
    {| opt_internalToken := Some ""; opt_callbackSecret := None |}.

(** A dispatcher answer whose body is the serialisation of [v]. *)
Definition answer (code : N) (reason : string) (v : json) : HttpResponse :=
  {| status := code; statusText := reason;
     payload := BodyText (JSON_stringify v) (Some v) |}.

Definition always (res : HttpResponse) : Network := fun _ => Some res.

Definition accepted : json := JObj [("accepted", JBool true); ("queueLength", JNum 1)].

Definition good_job : json :=
  JObj [("jobId", JStr "demo-1"); ("task", JStr "agent");
        ("instructions", JStr "Add README quickstart")].

(** No [jobId], and a task outside the enumeration. *)
Definition bad_job : json :=
  JObj [("task", JStr "bogus"); ("instructions", JStr "anything")].

(** Well typed as an [EnqueueBody], with a [repo] that is no URL. *)
Definition bad_repo_job : json :=
  JObj [("jobId", JStr "demo-2"); ("task", JStr "script");
        ("instructions", JStr "run"); ("repo", JStr "not a url")].

Definition no_job : json := JObj [("job", JNull)].

Definition a_job : json :=
  JObj [("job", JObj [("jobId", JStr "demo-1"); ("task", JStr "agent");
                      ("instructions", JStr "Add README quickstart");
                      ("claimId", JStr "c-1")])].

Definition an_error : json := JObj [("error", JStr "dispatcher unavailable")].

Definition report : json :=
  JObj [("claimId", JStr "c-1"); ("workerId", JStr "worker-1");
        ("status", JStr "succeeded"); ("logs", JStr "done")].

Definition ok_true : json := JObj [("ok", JBool true)].

Definition refused (why : string) : json :=
  JObj [("ok", JBool false); ("error", JStr why)].


Definition job_named (id : string) : Dispatcher.Job :=
  {| Dispatcher.jobId := id;
     Dispatcher.task := Dispatcher.agent;
     Dispatcher.instructions := "Add README quickstart";
     Dispatcher.repo := None;
     Dispatcher.branch := None;
     Dispatcher.base := None;
     Dispatcher.githubToken := None;
     Dispatcher.metadata := {["a" := JNum 1]} |}.

Definition three_jobs : list Dispatcher.Job :=
  [job_named "demo-1"; job_named "demo-2"; job_named "demo-3"].

(** Workers with the time at which each one calls. *)
Definition two_callers : list (string * N) := [("w-1", 10); ("w-2", 11)].

Definition four_callers : list (string * N) :=
  [("w-2", 10); ("w-1", 11); ("w-2", 12); ("w-3", 13)].

(** demo-1 enqueued and then claimed by w-1 under claim 1. *)
Definition claimed_state : Dispatcher.State :=
  Dispatcher.run_ops
    [Dispatcher.OpEnqueue (job_named "demo-1"); Dispatcher.OpClaim "w-1" 10]
    Dispatcher.init.

End Samples.

Module MoreSamples.

(** A runtime without [process], one whose [process] has no [env], and a
    Node runtime with the three variables set. *)
Definition browser : Runtime.GlobalThis := {| Runtime.process := None |}.

Definition bare_process : Runtime.GlobalThis :=
  {| Runtime.process := Some {| Runtime.env := None |} |}.

Definition vars (name : string) : option string :=
  if String.eqb name "HIVE_BASE_URL" then Some "https://hive.example.com/"
  else if String.eqb name "HIVE_INTERNAL_TOKEN" then Some "s3cret"
  else if String.eqb name "HIVE_CALLBACK_SECRET" then Some "hush"
  else None.

Definition node : Runtime.GlobalThis :=
  {| Runtime.process := Some {| Runtime.env := Some vars |} |}.

Definition typed_job : Typed.EnqueueBody :=
  {| Typed.jobId := "demo-1";
     Typed.task := Typed.agent;
     Typed.instructions := "Add README quickstart";
     Typed.repo := Some "https://github.com/jobrayan/codimir-web.git";
     Typed.branch := Some "ci/demo";
     Typed.base := Some "main";
     Typed.githubToken := None;
     Typed.metadata := Some [("a", JNum 1)] |}.

(** A URL check that accepts the texts that start with a scheme of the
    web. *)
Definition web_url (s : string) : bool :=
  String.prefix "https://" s || String.prefix "http://" s.

(** A result whose [ok] is a number, and one that has no [ok]. *)
Definition ok_one : json := JObj [("ok", JNum 1)].

Definition no_ok : json := JObj [("error", JStr "UnknownClaim")].

End MoreSamples.

(* ===================================================================== *)
(** * The client: what it sends *)
(* ===================================================================== *)

Section ClientFacts.
Variable rev : Revision.
Variable net : Network.

(** Either revision of [requestJson] puts exactly one request on the
    wire, whatever the answer. *)
Lemma requestJson_sent url init wire :
  snd (requestJson rev net url init wire)
  = (wire ++ [{| url := url; init := init |}])%list.
Proof.
  destruct rev; cbn -[pretty];
    unfold UndiciRev.requestJson, FetchRev.requestJson, await, send.
  - destruct (net _) as [res|]; [|done].
    unfold json_of. by destruct (payload res) as [|raw [v|]].
  - destruct (net _) as [res|]; [|done].
    destruct (ok res); cbn -[pretty].
    + unfold json_of. by destruct (payload res) as [|raw [v|]].
    + unfold await, catch, text. by destruct (payload res).
Qed.


End ClientFacts.

(** C1, as amended: [HiveClient.enqueue] never consults [EnqueueSchema].
    Every payload, valid or not, is serialised and sent: the call puts
    exactly one request on the wire, a POST to [baseUrl/enqueue] whose body
    is [JSON.stringify] of that payload. *)
Theorem enqueue_sends_every_payload
    (rev : Revision) (net : Network) (c : HiveClient) (job : json)
    (wire : list Request) :
  exists init,
    snd (enqueue rev net c job wire)
    = (wire ++ [{| url := baseUrl c +:+ "/enqueue"; init := init |}])%list
    /\ method init = POST
    /\ body init = Some (JSON_stringify job).
Proof.
  unfold enqueue. eexists. rewrite requestJson_sent. repeat split; done.
Qed.

(** C1 refuted: a payload without [jobId] and with a task outside the
    enumeration fails the schema under every URL check, and so does a
    payload whose [repo] the URL check rejects; both revisions of the
    client send them all the same. *)
Lemma enqueue_sends_invalid_payload :
  (forall isUrl, Zod.EnqueueSchema isUrl Samples.bad_job = false)
  /\ (forall isUrl, isUrl "not a url" = false ->
        Zod.EnqueueSchema isUrl Samples.bad_repo_job = false)
  /\ (forall rev,
        enqueue rev (Samples.always (Samples.answer 200 "OK" Samples.accepted))
          Samples.client Samples.bad_job []
        = (Fulfilled Samples.accepted,
           [{| url := "http://localhost:8099/enqueue";
               init := {| method := POST;
                          headers := <["authorization" := "Bearer s3cret"]> json_headers;
                          body := Some (JSON_stringify Samples.bad_job) |} |}]))
  /\ (forall rev net,
        snd (enqueue rev net Samples.client Samples.bad_repo_job [])
        = [{| url := "http://localhost:8099/enqueue";
              init := {| method := POST;
                         headers := <["authorization" := "Bearer s3cret"]> json_headers;
                         body := Some (JSON_stringify Samples.bad_repo_job) |} |}]).
Proof.
  split; [done|]. split.
  - intros isUrl Hno. cbn. by rewrite Hno.
  - split.
    + by intros [].
    + intros rev net. unfold enqueue. by rewrite requestJson_sent.
Qed.

(** C2, as amended: [HiveClient.claim] takes no argument. Its request is a
    POST to [baseUrl/claim] with no header and no body, the same for every
    caller; a worker's identity reaches the dispatcher only inside the
    payload of [callback], which is sent serialised as given. *)
Theorem claim_request_is_anonymous
    (rev : Revision) (net : Network) (c : HiveClient) (payload : json)
    (wire : list Request) :
  snd (claim rev net c wire)
  = (wire ++ [{| url := baseUrl c +:+ "/claim";
                 init := {| method := POST; headers := ∅; body := None |} |}])%list
  /\ exists init,
       snd (callback rev net c payload wire)
       = (wire ++ [{| url := baseUrl c +:+ "/callback"; init := init |}])%list
       /\ body init = Some (JSON_stringify payload).
Proof.
  split.
  - unfold claim. by rewrite requestJson_sent.
  - unfold callback. eexists. by rewrite requestJson_sent.
Qed.

(** C2 refuted: when worker-1 claims through the sample client, the one
    request sent mentions worker-1 nowhere, neither in its URL nor in a
    header nor in a body. *)
Lemma claim_request_omits_worker :
  (forall rev net,
     snd (claim rev net Samples.client [])
     = [{| url := "http://localhost:8099/claim";
           init := {| method := POST; headers := ∅; body := None |} |}])
  /\ mentions "worker-1"
       {| url := "http://localhost:8099/claim";
          init := {| method := POST; headers := ∅; body := None |} |} = false.
Proof.
  split; [|done].
  intros rev net. unfold claim. by rewrite requestJson_sent.
Qed.

(** C3: with both secrets configured (each a non-empty string), an enqueue
    request carries [authorization: Bearer <internalToken>] next to its
    content type and nothing else, a callback request carries
    [x-callback-secret: <callbackSecret>] next to its content type and
    nothing else, and a claim request carries no header and no body. Each
    request is spelled out in full, so neither secret occurs in the request
    of another operation. *)
Theorem secrets_go_to_their_own_operation
    (rev : Revision) (net : Network) (c : HiveClient) (token secret : string)
    (job payload : json) (wire : list Request) :
  internalToken c = Some token -> token <> "" ->
  callbackSecret c = Some secret -> secret <> "" ->
  snd (enqueue rev net c job wire)
  = (wire ++ [{| url := baseUrl c +:+ "/enqueue";
                 init := {| method := POST;
                            headers := <["authorization" := "Bearer " +:+ token]>
                                         {["content-type" := "application/json"]};
                            body := Some (JSON_stringify job) |} |}])%list
  /\ snd (callback rev net c payload wire)
     = (wire ++ [{| url := baseUrl c +:+ "/callback";
                    init := {| method := POST;
                               headers := <["x-callback-secret" := secret]>
                                            {["content-type" := "application/json"]};
                               body := Some (JSON_stringify payload) |} |}])%list
  /\ snd (claim rev net c wire)
     = (wire ++ [{| url := baseUrl c +:+ "/claim";
                    init := {| method := POST; headers := ∅; body := None |} |}])%list.
Proof.
  intros Htok Htok_set Hsec Hsec_set.
  assert (truthy_string token = true) as Ht.
  { unfold truthy_string. destruct (String.eqb_spec token ""); done. }
  assert (truthy_string secret = true) as Hs.
  { unfold truthy_string. destruct (String.eqb_spec secret ""); done. }
  unfold enqueue, callback, claim.
  rewrite !requestJson_sent, Htok, Hsec, Ht, Hs. done.
Qed.

Lemma secrets_go_to_their_own_operation_witness :
  snd (enqueue Fetch (Samples.always (Samples.answer 200 "OK" Samples.accepted))
         Samples.client Samples.good_job [])
  = ([] ++ [{| url := baseUrl Samples.client +:+ "/enqueue";
               init := {| method := POST;
                          headers := <["authorization" := "Bearer " +:+ "s3cret"]>
                                       {["content-type" := "application/json"]};
                          body := Some (JSON_stringify Samples.good_job) |} |}])%list
  /\ snd (callback Fetch (Samples.always (Samples.answer 200 "OK" Samples.accepted))
            Samples.client Samples.report [])
     = ([] ++ [{| url := baseUrl Samples.client +:+ "/callback";
                  init := {| method := POST;
                             headers := <["x-callback-secret" := "hush"]>
                                          {["content-type" := "application/json"]};
                             body := Some (JSON_stringify Samples.report) |} |}])%list
  /\ snd (claim Fetch (Samples.always (Samples.answer 200 "OK" Samples.accepted))
            Samples.client [])
     = ([] ++ [{| url := baseUrl Samples.client +:+ "/claim";
                  init := {| method := POST; headers := ∅; body := None |} |}])%list.
Proof.
  apply (secrets_go_to_their_own_operation Fetch
           (Samples.always (Samples.answer 200 "OK" Samples.accepted))
           Samples.client "s3cret" "hush" Samples.good_job Samples.report []).
  - reflexivity.
  - discriminate.
  - reflexivity.
  - discriminate.
Defined.

(* ===================================================================== *)
(** * The client: what it returns *)
(* ===================================================================== *)








(* ===================================================================== *)
(** * The Next.js route handlers *)
(* ===================================================================== *)

(** C9: whatever [client.claim()] returns (a job, [{job: null}] or an
    [{error}] payload, or any other value), the handler made by
    [createNextClaimRoute] answers with status 200, the JSON content type
    and the serialisation of that value as body. *)
Theorem claim_route_answers_200
    (rev : Revision) (net : Network) (c : HiveClient)
    (wire wire' : list Request) (data : json) :
  claim rev net c wire = (Fulfilled data, wire') ->
  createNextClaimRoute rev net c wire
  = (Fulfilled {| r_status := 200;
                  r_headers := {["content-type" := "application/json"]};
                  r_body := JSON_stringify data |}, wire').
Proof.
  intros Hclaim. unfold createNextClaimRoute, await. by rewrite Hclaim.
Qed.

Lemma claim_route_answers_200_witness :
  createNextClaimRoute Fetch (Samples.always (Samples.answer 200 "OK" Samples.no_job))
    Samples.client []
  = (Fulfilled {| r_status := 200;
                  r_headers := {["content-type" := "application/json"]};
                  r_body := JSON_stringify Samples.no_job |},
     [{| url := "http://localhost:8099/claim";
         init := {| method := POST; headers := ∅; body := None |} |}])
  /\ createNextClaimRoute Fetch (Samples.always (Samples.answer 200 "OK" Samples.a_job))
       Samples.client []
     = (Fulfilled {| r_status := 200;
                     r_headers := {["content-type" := "application/json"]};
                     r_body := JSON_stringify Samples.a_job |},
        [{| url := "http://localhost:8099/claim";
            init := {| method := POST; headers := ∅; body := None |} |}])
  /\ createNextClaimRoute Undici
       (Samples.always (Samples.answer 503 "Service Unavailable" Samples.an_error))
       Samples.client []
     = (Fulfilled {| r_status := 200;
                     r_headers := {["content-type" := "application/json"]};
                     r_body := JSON_stringify Samples.an_error |},
        [{| url := "http://localhost:8099/claim";
            init := {| method := POST; headers := ∅; body := None |} |}]).
Proof.
  split; [|split].
  - apply (claim_route_answers_200 Fetch
             (Samples.always (Samples.answer 200 "OK" Samples.no_job))
             Samples.client [] _ Samples.no_job).
    reflexivity.
  - apply (claim_route_answers_200 Fetch
             (Samples.always (Samples.answer 200 "OK" Samples.a_job))
             Samples.client [] _ Samples.a_job).
    reflexivity.
  - apply (claim_route_answers_200 Undici
             (Samples.always (Samples.answer 503 "Service Unavailable" Samples.an_error))
             Samples.client [] _ Samples.an_error).
    reflexivity.
Defined.

(** C10: when [client.callback] returns an object whose [ok] is a boolean,
    the handler made by [createNextCallbackRoute] answers 200 if [ok] is
    true and 401 if it is false, whatever the [error] field says; so the
    status is 200 exactly when [ok] is true. The body is the serialisation
    of the forwarded result. *)
Theorem callback_route_status
    (rev : Revision) (net : Network) (c : HiveClient)
    (raw : string) (payload data : json) (o : list (string * json)) (b : bool)
    (wire wire' : list Request) :
  callback rev net c payload wire = (Fulfilled data, wire') ->
  data = JObj o ->
  assoc "ok" o = Some (JBool b) ->
  createNextCallbackRoute rev net c (BodyText raw (Some payload)) wire
  = (Fulfilled {| r_status := if b then 200 else 401;
                  r_headers := {["content-type" := "application/json"]};
                  r_body := JSON_stringify data |}, wire')
  /\ ((if b then 200 else 401) = 200 <-> b = true).
Proof.
  intros Hcall -> Hok. split.
  - unfold createNextCallbackRoute, await, json_of, resolve.
    rewrite Hcall. cbn -[JSON_stringify]. by rewrite Hok.
  - by destruct b.
Qed.

Lemma callback_route_status_witness :
  (createNextCallbackRoute Fetch
     (Samples.always (Samples.answer 200 "OK" Samples.ok_true))
     Samples.client (BodyText (JSON_stringify Samples.report) (Some Samples.report)) []
   = (Fulfilled {| r_status := if true then 200 else 401;
                   r_headers := {["content-type" := "application/json"]};
                   r_body := JSON_stringify Samples.ok_true |},
      [{| url := "http://localhost:8099/callback";
          init := {| method := POST;
                     headers := <["x-callback-secret" := "hush"]> json_headers;
                     body := Some (JSON_stringify Samples.report) |} |}])
   /\ ((if true then 200 else 401) = 200 <-> true = true))
  /\ (createNextCallbackRoute Fetch
        (Samples.always (Samples.answer 200 "OK" (Samples.refused "ClaimClosed")))
        Samples.client (BodyText (JSON_stringify Samples.report) (Some Samples.report)) []
      = (Fulfilled {| r_status := if false then 200 else 401;
                      r_headers := {["content-type" := "application/json"]};
                      r_body := JSON_stringify (Samples.refused "ClaimClosed") |},
         [{| url := "http://localhost:8099/callback";
             init := {| method := POST;
                        headers := <["x-callback-secret" := "hush"]> json_headers;
                        body := Some (JSON_stringify Samples.report) |} |}])
      /\ ((if false then 200 else 401) = 200 <-> false = true)).
Proof.
  split.
  - apply (callback_route_status Fetch
             (Samples.always (Samples.answer 200 "OK" Samples.ok_true))
             Samples.client _ Samples.report Samples.ok_true
             [("ok", JBool true)] true [] _);
      reflexivity.
  - apply (callback_route_status Fetch
             (Samples.always (Samples.answer 200 "OK" (Samples.refused "ClaimClosed")))
             Samples.client _ Samples.report (Samples.refused "ClaimClosed")
             [("ok", JBool false); ("error", JStr "ClaimClosed")] false [] _);
      reflexivity.
Defined.

(* ===================================================================== *)
(** * Further facts about the client *)
(* ===================================================================== *)

(** X1: [normalizeBaseUrl] drops a slash that ends the text, one only, and
    changes nothing else. *)
Theorem normalizeBaseUrl_last (s : string) (c : ascii) :
  normalizeBaseUrl (s +:+ String c "")
  = if Ascii.eqb c "/" then s else s +:+ String c "".
Proof.
  induction s as [|a s IH]; [done|].
  change (String a s +:+ String c "") with (String a (s +:+ String c "")).
  assert (normalizeBaseUrl (String a (s +:+ String c ""))
          = String a (normalizeBaseUrl (s +:+ String c ""))) as ->.
  { by destruct s. }
  rewrite IH. by destruct (Ascii.eqb c "/").
Qed.




(** X4: a secret that is left out or empty is not sent: the enqueue and
    callback requests then carry the content type as their only header. *)
Theorem unset_secrets_are_not_sent
    (rev : Revision) (net : Network) (c : HiveClient) (job report : json)
    (wire : list Request) :
  internalToken c = None \/ internalToken c = Some "" ->
  callbackSecret c = None \/ callbackSecret c = Some "" ->
  snd (enqueue rev net c job wire)
  = (wire ++ [{| url := baseUrl c +:+ "/enqueue";
                 init := {| method := POST;
                            headers := {["content-type" := "application/json"]};
                            body := Some (JSON_stringify job) |} |}])%list
  /\ snd (callback rev net c report wire)
     = (wire ++ [{| url := baseUrl c +:+ "/callback";
                    init := {| method := POST;
                               headers := {["content-type" := "application/json"]};
                               body := Some (JSON_stringify report) |} |}])%list.
Proof.
  intros Htok Hsec. unfold enqueue, callback. rewrite !requestJson_sent.
  by destruct Htok as [-> | ->], Hsec as [-> | ->].
Qed.

Lemma unset_secrets_are_not_sent_witness :
  snd (enqueue Fetch (Samples.always (Samples.answer 200 "OK" Samples.accepted))
         Samples.bare_client Samples.good_job [])
  = ([] ++ [{| url := baseUrl Samples.bare_client +:+ "/enqueue";
               init := {| method := POST;
                          headers := {["content-type" := "application/json"]};
                          body := Some (JSON_stringify Samples.good_job) |} |}])%list
  /\ snd (callback Fetch (Samples.always (Samples.answer 200 "OK" Samples.accepted))
            Samples.bare_client Samples.report [])
     = ([] ++ [{| url := baseUrl Samples.bare_client +:+ "/callback";
                  init := {| method := POST;
                             headers := {["content-type" := "application/json"]};
                             body := Some (JSON_stringify Samples.report) |} |}])%list.
Proof.
  apply (unset_secrets_are_not_sent Fetch
           (Samples.always (Samples.answer 200 "OK" Samples.accepted))
           Samples.bare_client Samples.good_job Samples.report []).
  - right. reflexivity.
  - left. reflexivity.
Defined.

(** X5: when the dispatcher's answer to a callback is the JSON value null,
    the handler made by [createNextCallbackRoute] throws a TypeError (the
    read of [data.ok]) instead of answering. *)
Theorem callback_route_null_result
    (rev : Revision) (net : Network) (c : HiveClient) (raw : string)
    (report : json) (wire wire' : list Request) :
  callback rev net c report wire = (Fulfilled JNull, wire') ->
  createNextCallbackRoute rev net c (BodyText raw (Some report)) wire
  = (Rejected TypeError, wire').
Proof.
  intros Hcall. unfold createNextCallbackRoute, await, json_of, resolve.
  by rewrite Hcall.
Qed.

Lemma callback_route_null_result_witness :
  createNextCallbackRoute Undici (Samples.always (Samples.answer 200 "OK" JNull))
    Samples.bare_client (BodyText (JSON_stringify Samples.report) (Some Samples.report)) []
  = (Rejected TypeError,
     [{| url := "http://localhost:8099/callback";
         init := {| method := POST;
                    headers := {["content-type" := "application/json"]};
                    body := Some (JSON_stringify Samples.report) |} |}]).
Proof.
  apply (callback_route_null_result Undici
           (Samples.always (Samples.answer 200 "OK" JNull))
           Samples.bare_client (JSON_stringify Samples.report) Samples.report [] _).
  reflexivity.
Defined.

(* ===================================================================== *)
(** * The dispatcher: its invariant *)
(* ===================================================================== *)

Section DispatcherInvariant.
Import Dispatcher.
Local Open Scope nat_scope.

Lemma wf_init : wf init.
Proof.
  split; cbn; try done.
  - intros j Hj. by apply elem_of_nil in Hj.
  - constructor.
Qed.

Lemma enqueue_wf j s : wf s -> wf (snd (enqueue j s)).
Proof.
  intros Hwf. unfold enqueue.
  destruct (store s !! jobId j) as [r0|] eqn:Hfree; [done|].
  destruct Hwf as [Hkey Hq Hnd Hact Hone Hold Hcold Hgone].
  split; cbn; try done.
  - intros j' r. rewrite lookup_insert. case_decide; naive_solver.
  - intros j' [Hin| ->%list_elem_of_singleton]%elem_of_app.
    + destruct (Hq j' Hin) as (r & Hr & Hp).
      exists r. rewrite lookup_insert_ne; [done|]. congruence.
    + eexists. by rewrite lookup_insert_eq.
  - apply NoDup_app. repeat split; [done| |apply NoDup_singleton].
    intros j' Hin ->%list_elem_of_singleton.
    destruct (Hq _ Hin) as (r & Hr & _). congruence.
  - intros c cr Hc. destruct (Hact c cr Hc) as (r & Hr & Hst).
    exists r. rewrite lookup_insert_ne; [done|]. congruence.
Qed.

(** A successful claim, spelled out. *)
Lemma claim_grants w now s j rest :
  wf s -> queue s = j :: rest ->
  exists r,
    store s !! j = Some r /\ state r = pending /\ jobId (job r) = j
    /\ claim w now s
       = (inr (Some (job r, nextClaim s)),
          {| store := <[j := {| job := job r; state := claimed;
                                logs := logs r; merged := merged r |}]> (store s);
             queue := rest;
             active := <[nextClaim s := {| claim_job := j; claim_worker := w;
                                           claim_time := now |}]> (active s);
             closed := closed s;
             nextClaim := (nextClaim s + 1)%N |}).
Proof.
  intros Hwf Hq.
  destruct (wf_queued s Hwf j) as (r & Hr & Hp); [rewrite Hq; left|].
  exists r. repeat split; try done.
  - by apply (wf_keyed s Hwf).
  - unfold claim. by rewrite Hq, Hr, Hp.
Qed.

Lemma claim_empty w now s : queue s = [] -> claim w now s = (inr None, s).
Proof. intros Hq. unfold claim. by rewrite Hq. Qed.

Lemma claim_wf w now s : wf s -> wf (snd (claim w now s)).
Proof.
  intros Hwf.
  destruct (queue s) as [|j rest] eqn:Hq; [by rewrite claim_empty|].
  destruct (claim_grants w now s j rest Hwf Hq) as (r & Hr & Hp & Hid & ->).
  assert (forall c cr, active s !! c = Some cr -> claim_job cr <> j) as Hbusy.
  { intros c cr Hc <-. destruct (wf_active s Hwf c cr Hc) as (r' & Hr' & Hst).
    rewrite Hr in Hr'. injection Hr' as <-. rewrite Hp in Hst. by destruct Hst. }
  destruct Hwf as [Hkey Hqd Hnd Hact Hone Hold Hcold Hgone].
  rewrite Hq in Hqd, Hnd. apply NoDup_cons in Hnd as [Hnotin Hnd].
  split; cbn; try done.
  - intros j' r'. rewrite lookup_insert. case_decide; [|by auto].
    intros [= <-]. by subst.
  - intros j' Hin. destruct (Hqd j') as (r' & Hr' & Hp'); [by right|].
    exists r'. rewrite lookup_insert_ne; [done|]. by intros ->.
  - intros c cr. rewrite lookup_insert. case_decide.
    + intros [= <-]. cbn. eexists. rewrite lookup_insert_eq. eauto.
    + intros Hc. destruct (Hact c cr Hc) as (r' & Hr' & Hst).
      exists r'. rewrite lookup_insert_ne; [done|].
      intros ->. by apply (Hbusy c cr).
  - intros c1 c2 cr1 cr2. rewrite !lookup_insert.
    repeat case_decide; subst; try done.
    + intros [= <-] Hc2 Heq. cbn in Heq. by destruct (Hbusy c2 cr2).
    + intros Hc1 [= <-] Heq. cbn in Heq. by destruct (Hbusy c1 cr1).
    + by apply Hone.
  - intros c cr. rewrite lookup_insert. case_decide; [intros _; lia|].
    intros Hc. specialize (Hold c cr Hc). lia.
  - intros c Hc. specialize (Hcold c Hc). lia.
  - intros c Hc. rewrite lookup_insert_ne; [by apply Hgone|].
    specialize (Hcold c Hc). lia.
Qed.

(** A report either fails and leaves the state as it was, or it is
    accepted on an open claim of the calling worker. *)
Lemma report_cases c w st l m s :
  (exists f, reportStatus c w st l m s = (inl f, s))
  \/ ((c ∉ closed s)
      /\ exists cr r,
           active s !! c = Some cr /\ claim_worker cr = w
           /\ store s !! claim_job cr = Some r
           /\ (state r = claimed \/ state r = running)
           /\ reportStatus c w st l m s
              = (inr tt,
                 {| store := <[claim_job cr :=
                                 {| job := job r; state := lifecycle_of st;
                                    logs := match l with
                                            | Some t => Some t
                                            | None => logs r
                                            end;
                                    merged := m ∪ merged r |}]> (store s);
                    queue := queue s;
                    active := if terminal st then delete c (active s) else active s;
                    closed := if terminal st then {[c]} ∪ closed s else closed s;
                    nextClaim := nextClaim s |})).
Proof.
  unfold reportStatus.
  destruct (decide (c ∈ closed s)) as [|Hopen]; [left; eauto|].
  destruct (active s !! c) as [cr|] eqn:Hc; [|left; eauto].
  destruct (String.eqb_spec (claim_worker cr) w) as [Hw|]; [|left; eauto].
  cbn. destruct (store s !! claim_job cr) as [r|] eqn:Hr; [|left; eauto].
  destruct (state r) eqn:Hst; try (left; eauto; fail);
    right; split; try done; exists cr, r; rewrite Hr, Hst; eauto 10.
Qed.

Lemma report_wf c w st l m s : wf s -> wf (snd (reportStatus c w st l m s)).
Proof.
  intros Hwf.
  destruct (report_cases c w st l m s)
    as [[f ->]|(Hopen & cr & r & Hc & Hw & Hr & Hst & ->)]; [done|].
  assert (forall j, j ∈ queue s -> j <> claim_job cr) as Hnotq.
  { intros j Hj ->. destruct (wf_queued s Hwf _ Hj) as (r' & Hr' & Hp).
    rewrite Hr in Hr'. injection Hr' as <-. rewrite Hp in Hst. by destruct Hst. }
  destruct Hwf as [Hkey Hqd Hnd Hact Hone Hold Hcold Hgone].
  split; cbn; try done.
  - intros j' r'. rewrite lookup_insert. case_decide; [|by auto].
    intros [= <-]. subst. cbn. by apply Hkey.
  - intros j Hj. destruct (Hqd j Hj) as (r' & Hr' & Hp).
    exists r'. rewrite lookup_insert_ne; [done|]. intros Heq. by apply (Hnotq j Hj).
  - intros c' cr' Hc'.
    assert (active s !! c' = Some cr' /\ (terminal st = true -> c' <> c)) as [Hc'' Hne].
    { destruct (terminal st); [|done].
      apply lookup_delete_Some in Hc' as [? ?]. by split. }
    destruct (decide (claim_job cr' = claim_job cr)) as [Heq|Hneq].
    + rewrite Heq, lookup_insert_eq. eexists. split; [done|]. cbn.
      assert (c' = c) as -> by (by eapply Hone).
      destruct st; cbn in *; [by right| |]; by destruct Hne.
    + rewrite lookup_insert_ne; [|done]. by eapply Hact.
  - intros c1 c2 cr1 cr2 H1 H2. 
    destruct (terminal st); [|by eapply Hone].
    apply lookup_delete_Some in H1 as [_ H1], H2 as [_ H2]. by eapply Hone.
  - intros c' cr' Hc'. destruct (terminal st); [|by eapply Hold].
    apply lookup_delete_Some in Hc' as [_ Hc']. by eapply Hold.
  - intros c' Hc'. destruct (terminal st); [|by apply Hcold].
    apply elem_of_union in Hc' as [->%elem_of_singleton|Hc']; [by eapply Hold|by apply Hcold].
  - intros c' Hc'. destruct (terminal st); [|by apply Hgone].
    apply elem_of_union in Hc' as [->%elem_of_singleton|Hc'].
    + by rewrite lookup_delete_eq.
    + rewrite lookup_delete_None. right. by apply Hgone.
Qed.

Lemma step_wf s op : wf s -> wf (step s op).
Proof.
  destruct op; cbn; eauto using enqueue_wf, claim_wf, report_wf.
Qed.

Lemma run_ops_wf ops s : wf s -> wf (run_ops ops s).
Proof.
  revert s. induction ops as [|op ops IH]; intros s Hwf; [done|].
  cbn. apply IH. by apply step_wf.
Qed.

End DispatcherInvariant.

(* ===================================================================== *)
(** * The dispatcher: runs of enqueues and claims *)
(* ===================================================================== *)

Section DispatcherRuns.
Import Dispatcher.
Local Open Scope nat_scope.
Local Open Scope list_scope.

Lemma omap_agree {A B} (f g : A -> option B) (l : list A) :
  (forall x, x ∈ l -> f x = g x) -> omap f l = omap g l.
Proof.
  induction l as [|x l IH]; intros Hfg; [done|].
  cbn. rewrite (Hfg x) by left. rewrite IH; [done|].
  intros y Hy. apply Hfg. by right.
Qed.

(** The waiting jobs are the records of the queued identifiers. *)
Lemma waiting_ids s : wf s -> jobId <$> waiting s = queue s.
Proof.
  intros Hwf. unfold waiting.
  pose proof (wf_queued s Hwf) as Hq. pose proof (wf_keyed s Hwf) as Hkey.
  induction (queue s) as [|j q IH]; [done|].
  destruct (Hq j) as (r & Hr & _); [by left|].
  cbn. rewrite Hr. cbn. rewrite (Hkey j r Hr). f_equal.
  apply IH. intros j' Hj'. apply Hq. by right.
Qed.

Lemma waiting_length s : wf s -> length (waiting s) = length (queue s).
Proof. intros Hwf. by rewrite <-(waiting_ids s Hwf), length_fmap. Qed.

Lemma waiting_after_enqueue j s :
  wf s -> store s !! jobId j = None ->
  waiting (snd (enqueue j s)) = waiting s ++ [j]
  /\ queue (snd (enqueue j s)) = queue s ++ [jobId j]
  /\ fst (enqueue j s) = inr (S (length (queue s))).
Proof.
  intros Hwf Hfree. unfold enqueue. rewrite Hfree. cbn.
  split; [|split; [done|]].
  - unfold waiting. cbn. rewrite omap_app. f_equal.
    + apply omap_agree. intros j' Hj'.
      destruct (wf_queued s Hwf j' Hj') as (r & Hr & _).
      rewrite lookup_insert_ne; [done|]. congruence.
    + cbn. by rewrite lookup_insert_eq.
  - by rewrite length_app, Nat.add_1_r.
Qed.

Lemma waiting_after_claim w now s j rest :
  wf s -> queue s = j :: rest ->
  exists g,
    fst (claim w now s) = inr (Some (g, nextClaim s))
    /\ waiting s = g :: waiting (snd (claim w now s))
    /\ queue (snd (claim w now s)) = rest
    /\ nextClaim (snd (claim w now s)) = (nextClaim s + 1)%N.
Proof.
  intros Hwf Hq.
  destruct (claim_grants w now s j rest Hwf Hq) as (r & Hr & Hp & Hid & ->).
  exists (job r). cbn. repeat split; try done.
  unfold waiting. rewrite Hq. cbn. rewrite Hr. cbn. f_equal.
  apply omap_agree. intros j' Hj'.
  rewrite lookup_insert_ne; [done|]. intros ->.
  pose proof (wf_nodup s Hwf) as Hnd. rewrite Hq in Hnd.
  by apply NoDup_cons in Hnd as [? _].
Qed.

Lemma granted_cons_none answers :
  granted (inr None :: answers) = granted answers.
Proof. done. Qed.

Lemma granted_cons_some g answers :
  granted (inr (Some g) :: answers) = g :: granted answers.
Proof. done. Qed.

Lemma enqueue_all_spec jobs s :
  wf s -> NoDup (jobId <$> jobs) ->
  Forall (fun j => store s !! jobId j = None) jobs ->
  Forall (fun a => exists n, a = inr n) (fst (enqueue_all jobs s))
  /\ length (fst (enqueue_all jobs s)) = length jobs
  /\ queue (snd (enqueue_all jobs s)) = queue s ++ (jobId <$> jobs)
  /\ waiting (snd (enqueue_all jobs s)) = waiting s ++ jobs
  /\ wf (snd (enqueue_all jobs s)).
Proof.
  revert s. induction jobs as [|j jobs IH]; intros s Hwf Hnd Hfree.
  { cbn. by rewrite !app_nil_r. }
  rewrite fmap_cons in Hnd. apply NoDup_cons in Hnd as [Hj Hnd].
  apply Forall_cons in Hfree as [Hfree_j Hfree].
  destruct (waiting_after_enqueue j s Hwf Hfree_j) as (Hw & Hq & Ha).
  pose proof (enqueue_wf j s Hwf) as Hwf1.
  cbn [enqueue_all].
  destruct (enqueue j s) as [a s1] eqn:He. cbn in Hw, Hq, Ha, Hwf1.
  destruct (IH s1) as (Hacc & Hlen & Hq' & Hw' & Hwf'); [done|done| |].
  { apply Forall_forall. intros j' Hj'.
    assert (s1 = snd (enqueue j s)) as -> by (by rewrite He).
    unfold enqueue. rewrite Hfree_j. cbn.
    rewrite lookup_insert_ne.
    - by apply (proj1 (Forall_forall _ _) Hfree).
    - intros Heq. apply Hj. rewrite Heq. by apply list_elem_of_fmap_2. }
  destruct (enqueue_all jobs s1) as [answers s2]. cbn in *.
  split_and!.
  - constructor; [eauto|done].
  - by rewrite Hlen.
  - by rewrite Hq', Hq, <-app_assoc.
  - by rewrite Hw', Hw, <-app_assoc.
  - done.
Qed.

Lemma claim_all_spec callers s :
  wf s ->
  fst (claim_all callers s)
  = ((fun g => inr (Some g)) <$> granted (fst (claim_all callers s)))
      ++ replicate (length callers - length (queue s)) (inr None)
  /\ (granted (fst (claim_all callers s))).*1 = take (length callers) (waiting s)
  /\ NoDup (granted (fst (claim_all callers s))).*2
  /\ (forall c, c ∈ (granted (fst (claim_all callers s))).*2 -> (nextClaim s <= c)%N)
  /\ queue (snd (claim_all callers s)) = drop (length callers) (queue s)
  /\ wf (snd (claim_all callers s)).
Proof.
  revert s. induction callers as [|[w now] callers IH]; intros s Hwf.
  { cbn. split_and!; try done; [constructor|]. intros c Hc. by apply elem_of_nil in Hc. }
  cbn [claim_all length].
  destruct (queue s) as [|j rest] eqn:Hq.
  - rewrite (claim_empty w now s Hq).
    destruct (IH s Hwf) as (Hshape & Hjobs & Hnd & Hge & Hq' & Hwf').
    assert (waiting s = []) as Hw.
    { apply length_zero_iff_nil. by rewrite waiting_length, Hq. }
    rewrite Hw, take_nil in Hjobs. rewrite Hw, Hq in *.
    destruct (claim_all callers s) as [answers s2]. cbn [fst snd] in *.
    rewrite granted_cons_none.
    apply fmap_nil_inv in Hjobs. rewrite Hjobs in *.
    rewrite take_nil, drop_nil in *. cbn [length] in *.
    rewrite Nat.sub_0_r in *. cbn in Hshape. rewrite Hshape at 1.
    split_and!; try done.
  - destruct (waiting_after_claim w now s j rest Hwf Hq) as (g & Ha & Hw & Hq1 & Hnext).
    pose proof (claim_wf w now s Hwf) as Hwf1.
    destruct (claim w now s) as [a s1]. cbn in Ha, Hw, Hq1, Hnext, Hwf1. subst a.
    destruct (IH s1 Hwf1) as (Hshape & Hjobs & Hnd & Hge & Hq' & Hwf').
    destruct (claim_all callers s1) as [answers s2]. cbn [fst snd] in *.
    rewrite granted_cons_some, Hw, Hq1 in *. cbn.
    split_and!; try done.
    + by rewrite <-Hshape.
    + by rewrite Hjobs.
    + apply NoDup_cons. split; [|done].
      intros Hin. specialize (Hge _ Hin). lia.
    + intros c [->|Hin]%elem_of_cons; [lia|]. specialize (Hge _ Hin). lia.
Qed.

End DispatcherRuns.

(* ===================================================================== *)
(** * The dispatcher: order, exclusiveness and finality *)
(* ===================================================================== *)

Section DispatcherFinality.
Import Dispatcher.
Local Open Scope nat_scope.
Local Open Scope list_scope.

Lemma closed_grows s op c : c ∈ closed s -> c ∈ closed (step s op).
Proof.
  intros Hc. destruct op as [j|w now|c' w st l m]; cbn.
  - unfold enqueue. by destruct (store s !! jobId j).
  - unfold claim. destruct (queue s) as [|j rest]; [done|].
    destruct (store s !! j) as [r|]; [|done]. by destruct (state r).
  - destruct (report_cases c' w st l m s)
      as [[f ->]|(_ & cr & r & _ & _ & _ & _ & ->)]; [done|].
    cbn. destruct (terminal st); [|done]. apply elem_of_union. by right.
Qed.

(** A record in a terminal state is out of reach of every call. *)
Lemma settled_stays s op j r :
  wf s -> store s !! j = Some r ->
  state r = succeeded \/ state r = failed ->
  store (step s op) !! j = Some r.
Proof.
  intros Hwf Hr Hdone. destruct op as [j'|w now|c w st l m]; cbn.
  - unfold enqueue. destruct (store s !! jobId j') eqn:Hfree; [done|].
    cbn. rewrite lookup_insert_ne; [done|]. congruence.
  - destruct (queue s) as [|j0 rest] eqn:Hq; [by rewrite claim_empty|].
    destruct (claim_grants w now s j0 rest Hwf Hq) as (r0 & Hr0 & Hp & _ & ->).
    cbn. rewrite lookup_insert_ne; [done|].
    intros ->. rewrite Hr in Hr0. injection Hr0 as <-.
    rewrite Hp in Hdone. by destruct Hdone.
  - destruct (report_cases c w st l m s)
      as [[f ->]|(_ & cr & r0 & _ & _ & Hr0 & Hst & ->)]; [done|].
    cbn. rewrite lookup_insert_ne; [done|].
    intros Heq. rewrite Heq, Hr in Hr0. injection Hr0 as <-.
    destruct Hdone as [Hd|Hd], Hst as [Hs|Hs]; congruence.
Qed.

Lemma report_on_closed c w st l m s :
  c ∈ closed s -> reportStatus c w st l m s = (inl ClaimClosed, s).
Proof. intros Hc. unfold reportStatus. by rewrite decide_True. Qed.

Lemma finality_kept ops s c j r :
  wf s -> c ∈ closed s -> store s !! j = Some r ->
  state r = succeeded \/ state r = failed ->
  wf (run_ops ops s) /\ c ∈ closed (run_ops ops s)
  /\ store (run_ops ops s) !! j = Some r.
Proof.
  revert s. induction ops as [|op ops IH]; intros s Hwf Hc Hr Hdone; [done|].
  cbn. apply IH; auto using step_wf, closed_grows, settled_stays.
Qed.

End DispatcherFinality.

(** C4: from any reachable state, after enqueue calls with pairwise
    distinct, unused identifiers (all of which are accepted), any run of
    claim calls is answered with the waiting jobs in the order in which
    they were enqueued: the grants come first, they are the first jobs of
    the queue, one per call, and the queue that remains is the rest. Every
    single grant removes exactly the head of the queue. *)
Theorem claims_follow_enqueue_order
    (s : Dispatcher.State) (jobs : list Dispatcher.Job)
    (callers : list (string * N)) :
  Dispatcher.wf s ->
  NoDup (Dispatcher.jobId <$> jobs) ->
  Forall (fun j => Dispatcher.store s !! Dispatcher.jobId j = None) jobs ->
  Forall (fun a => exists n, a = inr n) (fst (Dispatcher.enqueue_all jobs s))
  /\ (Dispatcher.granted
        (fst (Dispatcher.claim_all callers (snd (Dispatcher.enqueue_all jobs s))))).*1
     = take (length callers) (Dispatcher.waiting s ++ jobs)%list
  /\ fst (Dispatcher.claim_all callers (snd (Dispatcher.enqueue_all jobs s)))
     = (((fun g => inr (Some g)) <$>
          Dispatcher.granted
            (fst (Dispatcher.claim_all callers (snd (Dispatcher.enqueue_all jobs s)))))
        ++ replicate (length callers - length (Dispatcher.queue s) - length jobs)%nat
             (inr None))%list
  /\ Dispatcher.queue
       (snd (Dispatcher.claim_all callers (snd (Dispatcher.enqueue_all jobs s))))
     = drop (length callers) (Dispatcher.queue s ++ (Dispatcher.jobId <$> jobs))%list
  /\ forall w now s0 g claimId s',
       Dispatcher.wf s0 ->
       Dispatcher.claim w now s0 = (inr (Some (g, claimId)), s') ->
       Dispatcher.queue s0 = Dispatcher.jobId g :: Dispatcher.queue s'.
Proof.
  intros Hwf Hnd Hfree.
  destruct (enqueue_all_spec jobs s Hwf Hnd Hfree) as (Hacc & _ & Hq & Hw & Hwf1).
  destruct (claim_all_spec callers _ Hwf1) as (Hshape & Hjobs & _ & _ & Hq' & _).
  split_and!.
  - done.
  - by rewrite Hjobs, Hw.
  - rewrite Hshape at 1. do 2 f_equal.
    rewrite Hq, length_app, length_fmap. lia.
  - by rewrite Hq', Hq.
  - intros w now s0 g claimId s' Hwf0 Hclaim.
    destruct (Dispatcher.queue s0) as [|j rest] eqn:Hq0.
    + by rewrite (claim_empty w now s0 Hq0) in Hclaim.
    + destruct (claim_grants w now s0 j rest Hwf0 Hq0) as (r & _ & _ & Hid & Hgrant).
      rewrite Hgrant in Hclaim. injection Hclaim as <- _ <-. cbn. by rewrite Hid.
Qed.

Lemma claims_follow_enqueue_order_witness :
  (Dispatcher.granted
     (fst (Dispatcher.claim_all Samples.two_callers
             (snd (Dispatcher.enqueue_all Samples.three_jobs Dispatcher.init))))).*1
  = [Samples.job_named "demo-1"; Samples.job_named "demo-2"]
  /\ Dispatcher.queue
       (snd (Dispatcher.claim_all Samples.two_callers
               (snd (Dispatcher.enqueue_all Samples.three_jobs Dispatcher.init))))
     = ["demo-3"].
Proof.
  destruct (claims_follow_enqueue_order Dispatcher.init Samples.three_jobs
              Samples.two_callers) as (_ & Hjobs & _ & Hqueue & _).
  - apply wf_init.
  - cbn. compute_done.
  - by repeat constructor.
  - split; [exact Hjobs|exact Hqueue].
Defined.

(** C5: let the queue hold N waiting jobs and let claim calls, at least N
    of them, enter the critical section in any order. Then the first N
    calls are granted a job each and every later call is told that no job
    is available; the granted jobs are exactly the waiting jobs, so no job
    is granted twice, the claim identifiers are pairwise distinct, and the
    queue is empty afterwards, for every further call as well. *)
Theorem each_waiting_job_is_granted_once
    (s : Dispatcher.State) (callers : list (string * N)) :
  Dispatcher.wf s ->
  (length (Dispatcher.queue s) <= length callers)%nat ->
  fst (Dispatcher.claim_all callers s)
  = (((fun g => inr (Some g)) <$> Dispatcher.granted (fst (Dispatcher.claim_all callers s)))
     ++ replicate (length callers - length (Dispatcher.queue s))%nat (inr None))%list
  /\ length (Dispatcher.granted (fst (Dispatcher.claim_all callers s)))
     = length (Dispatcher.queue s)
  /\ (Dispatcher.granted (fst (Dispatcher.claim_all callers s))).*1 = Dispatcher.waiting s
  /\ NoDup (Dispatcher.jobId <$> (Dispatcher.granted (fst (Dispatcher.claim_all callers s))).*1)
  /\ NoDup (Dispatcher.granted (fst (Dispatcher.claim_all callers s))).*2
  /\ Dispatcher.queue (snd (Dispatcher.claim_all callers s)) = []
  /\ forall w now,
       Dispatcher.claim w now (snd (Dispatcher.claim_all callers s))
       = (inr None, snd (Dispatcher.claim_all callers s)).
Proof.
  intros Hwf Hlen.
  destruct (claim_all_spec callers s Hwf) as (Hshape & Hjobs & Hnd & _ & Hq & _).
  rewrite take_ge in Hjobs by (by rewrite waiting_length).
  rewrite drop_ge in Hq by done.
  split_and!; try done.
  - by rewrite <-(length_fmap fst), Hjobs, waiting_length.
  - rewrite Hjobs, waiting_ids by done. by apply Dispatcher.wf_nodup.
  - intros w now. by apply claim_empty.
Qed.

Lemma each_waiting_job_is_granted_once_witness :
  fst (Dispatcher.claim_all Samples.four_callers
         (snd (Dispatcher.enqueue_all Samples.three_jobs Dispatcher.init)))
  = [inr (Some (Samples.job_named "demo-1", 1%N));
     inr (Some (Samples.job_named "demo-2", 2%N));
     inr (Some (Samples.job_named "demo-3", 3%N));
     inr None]
  /\ Dispatcher.queue
       (snd (Dispatcher.claim_all Samples.four_callers
               (snd (Dispatcher.enqueue_all Samples.three_jobs Dispatcher.init))))
     = [].
Proof.
  destruct (each_waiting_job_is_granted_once
              (snd (Dispatcher.enqueue_all Samples.three_jobs Dispatcher.init))
              Samples.four_callers) as (Hshape & _ & _ & _ & _ & Hqueue & _).
  - apply (enqueue_all_spec Samples.three_jobs Dispatcher.init).
    + apply wf_init.
    + cbn. compute_done.
    + by repeat constructor.
  - vm_compute. lia.
  - split; [|exact Hqueue]. rewrite Hshape. reflexivity.
Defined.

(** C6: once a report of succeeded or failed has been accepted on a claim,
    the claim is out of the set of active claims and among the closed ones,
    and the job's record holds the reported state. From then on, whatever
    calls the dispatcher serves, the claim stays inactive, the job's record
    stays as it is, and every report on that claim fails with ClaimClosed
    and leaves the state untouched. *)
Theorem terminal_report_is_final
    (s s1 : Dispatcher.State) (claimId : N) (w : string) (st : Dispatcher.Status)
    (l : option string) (m : gmap string json) :
  Dispatcher.wf s ->
  Dispatcher.terminal st = true ->
  Dispatcher.reportStatus claimId w st l m s = (inr tt, s1) ->
  Dispatcher.active s1 !! claimId = None
  /\ claimId ∈ Dispatcher.closed s1
  /\ exists j r,
       Dispatcher.claim_job <$> Dispatcher.active s !! claimId = Some j
       /\ Dispatcher.store s1 !! j = Some r
       /\ Dispatcher.state r = Dispatcher.lifecycle_of st
       /\ forall ops,
            Dispatcher.active (Dispatcher.run_ops ops s1) !! claimId = None
            /\ Dispatcher.store (Dispatcher.run_ops ops s1) !! j = Some r
            /\ forall w' st' l' m',
                 Dispatcher.reportStatus claimId w' st' l' m' (Dispatcher.run_ops ops s1)
                 = (inl Dispatcher.ClaimClosed, Dispatcher.run_ops ops s1).
Proof.
  intros Hwf Hterm Hreport.
  pose proof (report_wf claimId w st l m s Hwf) as Hwf1.
  destruct (report_cases claimId w st l m s)
    as [[f Hfail]|(_ & cr & r & Hc & _ & Hr & _ & Hok)]; [congruence|].
  rewrite Hreport in Hwf1. rewrite Hok in Hreport. injection Hreport as <-.
  cbn in *. rewrite Hterm in *.
  assert (claimId ∈ ({[claimId]} ∪ Dispatcher.closed s : gset N)) as Hclosed
    by (apply elem_of_union; left; by apply elem_of_singleton).
  split_and!; [by rewrite lookup_delete_eq|done|].
  eexists (Dispatcher.claim_job cr), _. rewrite Hc. cbn.
  split_and!; [done|by rewrite lookup_insert_eq|done|].
  intros ops.
  match goal with |- context [Dispatcher.run_ops ops ?s1] =>
    destruct (finality_kept ops s1 claimId (Dispatcher.claim_job cr)
                {| Dispatcher.job := Dispatcher.job r;
                   Dispatcher.state := Dispatcher.lifecycle_of st;
                   Dispatcher.logs := match l with Some t => Some t
                                                 | None => Dispatcher.logs r end;
                   Dispatcher.merged := m ∪ Dispatcher.merged r |})
      as (Hwf2 & Hc2 & Hr2); [done|done|by cbn; rewrite lookup_insert_eq| |]
  end.
  { cbn. destruct st; [done|by left|by right]. }
  split_and!; [by apply (Dispatcher.wf_closed_gone _ Hwf2)|done|].
  intros w' st' l' m'. by apply report_on_closed.
Qed.

Lemma terminal_report_is_final_witness :
  Dispatcher.active
    (snd (Dispatcher.reportStatus 1 "w-1" Dispatcher.Succeeded None ∅ Samples.claimed_state))
    !! 1%N = None
  /\ Dispatcher.reportStatus 1 "w-1" Dispatcher.Running (Some "late") ∅
       (snd (Dispatcher.reportStatus 1 "w-1" Dispatcher.Succeeded None ∅
               Samples.claimed_state))
     = (inl Dispatcher.ClaimClosed,
        snd (Dispatcher.reportStatus 1 "w-1" Dispatcher.Succeeded None ∅
               Samples.claimed_state)).
Proof.
  destruct (terminal_report_is_final Samples.claimed_state
              (snd (Dispatcher.reportStatus 1 "w-1" Dispatcher.Succeeded None ∅
                      Samples.claimed_state))
              1 "w-1" Dispatcher.Succeeded None ∅)
    as (Hgone & _ & j & r & _ & _ & _ & Hlater).
  - apply (run_ops_wf [Dispatcher.OpEnqueue (Samples.job_named "demo-1");
                       Dispatcher.OpClaim "w-1" 10] Dispatcher.init).
    apply wf_init.
  - reflexivity.
  - reflexivity.
  - split; [exact Hgone|].
    destruct (Hlater []) as (_ & _ & Hclosed). apply Hclosed.
Defined.

(* ===================================================================== *)
(** * The schema *)
(* ===================================================================== *)

(** A property whose name the reader does not ask for is not seen. *)
Lemma assoc_skip (s k : string) (v : json) (o1 o2 : list (string * json)) :
  s <> k -> assoc s (o1 ++ (k, v) :: o2)%list = assoc s (o1 ++ o2)%list.
Proof.
  intros Hne. induction o1 as [|[k' v'] o1 IH]; cbn.
  - by destruct (String.eqb_spec s k).
  - by rewrite IH.
Qed.

(** X6: [EnqueueSchema] strips what it does not know. A property whose name
    is none of the eight names of the schema, placed anywhere in the
    payload and with any value, does not change the verdict. *)
Theorem schema_ignores_unknown_keys
    (isUrl : string -> bool) (o1 o2 : list (string * json))
    (k : string) (v : json) :
  k ∉ schema_keys ->
  Zod.EnqueueSchema isUrl (JObj (o1 ++ (k, v) :: o2)%list)
  = Zod.EnqueueSchema isUrl (JObj (o1 ++ o2)%list).
Proof.
  intros Hk. unfold schema_keys in Hk.
  repeat (apply not_elem_of_cons in Hk as [? Hk]).
  unfold Zod.EnqueueSchema.
  by rewrite !assoc_skip by done.
Qed.

Lemma schema_ignores_unknown_keys_witness :
  Zod.EnqueueSchema MoreSamples.web_url
    (JObj ([("jobId", JStr "demo-1")]
           ++ ("priority", JNum 9)
           :: [("task", JStr "agent"); ("instructions", JStr "run")])%list)
  = Zod.EnqueueSchema MoreSamples.web_url
      (JObj ([("jobId", JStr "demo-1")]
             ++ [("task", JStr "agent"); ("instructions", JStr "run")])%list).
Proof.
  apply (schema_ignores_unknown_keys MoreSamples.web_url
           [("jobId", JStr "demo-1")]
           [("task", JStr "agent"); ("instructions", JStr "run")]
           "priority" (JNum 9)).
  compute_done.
Defined.

(** X7: an optional property is optional by absence only. A payload that
    carries null under [repo], [branch], [base], [githubToken] or
    [metadata] is rejected, whatever else it holds. *)
Theorem schema_rejects_null_optional
    (isUrl : string -> bool) (o : list (string * json)) (k : string) :
  k ∈ optional_keys ->
  assoc k o = Some JNull ->
  Zod.EnqueueSchema isUrl (JObj o) = false.
Proof.
  intros Hk Hnull. unfold optional_keys in Hk.
  unfold Zod.EnqueueSchema.
  repeat (apply elem_of_cons in Hk as [->|Hk]);
    [..|by apply elem_of_nil in Hk];
    rewrite Hnull; cbn; by rewrite ?andb_false_r.
Qed.

Lemma schema_rejects_null_optional_witness :
  Zod.EnqueueSchema MoreSamples.web_url
    (JObj [("jobId", JStr "demo-1"); ("task", JStr "agent");
           ("instructions", JStr "run"); ("branch", JNull)])
  = false.
Proof.
  apply (schema_rejects_null_optional MoreSamples.web_url
           [("jobId", JStr "demo-1"); ("task", JStr "agent");
            ("instructions", JStr "run"); ("branch", JNull)] "branch").
  - compute_done.
  - reflexivity.
Defined.

(** X8: on a payload that has the static type [EnqueueBody], the schema can
    only object to [repo]: the payload is accepted exactly when [repo] is
    left out or passes the URL check. *)
Theorem schema_on_typed_payload (isUrl : string -> bool) (b : Typed.EnqueueBody) :
  Zod.EnqueueSchema isUrl (Typed.to_json b)
  = match Typed.repo b with
    | Some r => isUrl r
    | None => true
    end.
Proof.
  destruct b as [id t ins [r|] [br|] [ba|] [tok|] [md|]];
    destruct t; cbn; by rewrite ?andb_true_r.
Qed.

(* ===================================================================== *)
(** * The environment *)
(* ===================================================================== *)

(** X9: where [process] or [process.env] is missing, the fetch-based
    [envClient] still returns a client, the one for the default base URL
    with no secret, while the undici-based [envClient] throws. *)
Theorem envClient_without_environment
    (g : Runtime.GlobalThis) (thrown : Runtime.EnvThrown) :
  Runtime.process_env g = inl thrown ->
  Runtime.FetchRev.envClient g
  = {| baseUrl := "http://localhost:8099";
       internalToken := None;
       callbackSecret := None |}
  /\ Runtime.UndiciRev.envClient g = inl thrown.
Proof.
  unfold Runtime.process_env, Runtime.FetchRev.envClient,
    Runtime.UndiciRev.envClient, Runtime.process_env, Runtime.readEnv.
  destruct (Runtime.process g) as [[[vars|]]|]; by intros [= <-].
Qed.

Lemma envClient_without_environment_witness :
  (Runtime.FetchRev.envClient MoreSamples.browser
   = {| baseUrl := "http://localhost:8099";
        internalToken := None;
        callbackSecret := None |}
   /\ Runtime.UndiciRev.envClient MoreSamples.browser = inl Runtime.ReferenceError)
  /\ (Runtime.FetchRev.envClient MoreSamples.bare_process
      = {| baseUrl := "http://localhost:8099";
           internalToken := None;
           callbackSecret := None |}
      /\ Runtime.UndiciRev.envClient MoreSamples.bare_process
         = inl Runtime.EnvTypeError).
Proof.
  split.
  - apply (envClient_without_environment MoreSamples.browser Runtime.ReferenceError).
    reflexivity.
  - apply (envClient_without_environment MoreSamples.bare_process Runtime.EnvTypeError).
    reflexivity.
Defined.

(** X10: whenever the undici-based [envClient] returns a client, the
    fetch-based one returns the same client: the base URL from
    HIVE_BASE_URL without its trailing slash (the default when the variable
    is unset, not when it is empty), and the two secrets as they are set. *)
Theorem envClient_revisions_agree (g : Runtime.GlobalThis) (c : HiveClient) :
  Runtime.UndiciRev.envClient g = inr c ->
  Runtime.FetchRev.envClient g = c
  /\ baseUrl c
     = match Runtime.readEnv g "HIVE_BASE_URL" with
       | Some b => normalizeBaseUrl b
       | None => "http://localhost:8099"
       end
  /\ internalToken c = Runtime.readEnv g "HIVE_INTERNAL_TOKEN"
  /\ callbackSecret c = Runtime.readEnv g "HIVE_CALLBACK_SECRET".
Proof.
  unfold Runtime.FetchRev.envClient, Runtime.UndiciRev.envClient,
    Runtime.process_env, Runtime.readEnv.
  destruct (Runtime.process g) as [[[vars|]]|]; try done.
  intros [= <-]. cbn. split_and!; try done.
  by destruct (vars "HIVE_BASE_URL").
Qed.

Lemma envClient_revisions_agree_witness :
  Runtime.FetchRev.envClient MoreSamples.node
  = {| baseUrl := "https://hive.example.com";
       internalToken := Some "s3cret";
       callbackSecret := Some "hush" |}.
Proof.
  destruct (envClient_revisions_agree MoreSamples.node
              {| baseUrl := "https://hive.example.com";
                 internalToken := Some "s3cret";
                 callbackSecret := Some "hush" |}) as (Hsame & _).
  - reflexivity.
  - exact Hsame.
Defined.

(* ===================================================================== *)
(** * More about the client and its routes *)
(* ===================================================================== *)

(** X11: whatever the client is configured with, an enqueue request never
    carries [x-callback-secret] and a callback request never carries
    [authorization]; both always declare the JSON content type. *)
Theorem headers_never_cross
    (rev : Revision) (net : Network) (c : HiveClient) (job report : json)
    (wire : list Request) :
  (exists e,
     snd (enqueue rev net c job wire)
     = (wire ++ [{| url := baseUrl c +:+ "/enqueue"; init := e |}])%list
     /\ headers e !! "content-type" = Some "application/json"
     /\ headers e !! "x-callback-secret" = None)
  /\ (exists k,
        snd (callback rev net c report wire)
        = (wire ++ [{| url := baseUrl c +:+ "/callback"; init := k |}])%list
        /\ headers k !! "content-type" = Some "application/json"
        /\ headers k !! "authorization" = None).
Proof.
  split; eexists; (split; [apply requestJson_sent|]); cbn.
  - destruct (internalToken c) as [token|]; [|done].
    by destruct (truthy_string token).
  - destruct (callbackSecret c) as [secret|]; [|done].
    by destruct (truthy_string secret).
Qed.

(** X12: when the connection fails, every call of either revision rejects
    with the failure of the transport; the catch inside the fetch-based
    [requestJson] does not swallow it. *)
Theorem connection_failure_rejects
    (rev : Revision) (c : HiveClient) (call : Call) (wire : list Request) :
  fst (run rev (fun _ => None) c call wire) = Rejected NetworkFailure.
Proof. by destruct rev, call. Qed.



(** X14: the callback handler forwards or sends nothing. A request body
    that cannot be read or parsed makes it throw before anything is sent;
    a body that parses, whatever its shape, is forwarded as [callback]
    sends it, without a check against [CallbackPayload]. *)
Theorem callback_route_forwards_parsed_body
    (rev : Revision) (net : Network) (c : HiveClient) (raw : string)
    (v : json) (wire : list Request) :
  createNextCallbackRoute rev net c BodyBroken wire = (Rejected StreamFailure, wire)
  /\ createNextCallbackRoute rev net c (BodyText raw None) wire
     = (Rejected SyntaxError, wire)
  /\ exists k,
       snd (createNextCallbackRoute rev net c (BodyText raw (Some v)) wire)
       = (wire ++ [{| url := baseUrl c +:+ "/callback"; init := k |}])%list
       /\ method k = POST
       /\ body k = Some (JSON_stringify v).
Proof.
  split_and!; [done|done|].
  assert (snd (createNextCallbackRoute rev net c (BodyText raw (Some v)) wire)
          = snd (callback rev net c v wire)) as ->.
  { unfold createNextCallbackRoute, await, json_of, resolve.
    destruct (callback rev net c v wire) as [[data|e] w]; [|done].
    by destruct data. }
  unfold callback. rewrite requestJson_sent. by eexists.
Qed.

(** X15: the status of the callback handler follows the truthiness of
    [ok], not its being the boolean true: on any result but null the
    status is 200 when [data.ok] is truthy and 401 otherwise, so a result
    without [ok] (or one that is no object) gives 401 and a non-empty
    string or a non-zero number under [ok] gives 200. *)
Theorem callback_route_status_by_truthiness
    (rev : Revision) (net : Network) (c : HiveClient) (raw : string)
    (report data : json) (wire wire' : list Request) :
  callback rev net c report wire = (Fulfilled data, wire') ->
  data <> JNull ->
  createNextCallbackRoute rev net c (BodyText raw (Some report)) wire
  = (Fulfilled {| r_status := if truthy match data with
                                        | JObj o => assoc "ok" o
                                        | _ => None
                                        end
                              then 200 else 401;
                  r_headers := {["content-type" := "application/json"]};
                  r_body := JSON_stringify data |}, wire').
Proof.
  intros Hcall Hnull.
  unfold createNextCallbackRoute, await, json_of, resolve.
  rewrite Hcall. by destruct data.
Qed.

Lemma callback_route_status_by_truthiness_witness :
  createNextCallbackRoute Fetch
    (Samples.always (Samples.answer 200 "OK" MoreSamples.ok_one))
    Samples.client (BodyText (JSON_stringify Samples.report) (Some Samples.report)) []
  = (Fulfilled {| r_status := 200;
                  r_headers := {["content-type" := "application/json"]};
                  r_body := JSON_stringify MoreSamples.ok_one |},
     [{| url := "http://localhost:8099/callback";
         init := {| method := POST;
                    headers := <["x-callback-secret" := "hush"]> json_headers;
                    body := Some (JSON_stringify Samples.report) |} |}])
  /\ createNextCallbackRoute Fetch
       (Samples.always (Samples.answer 200 "OK" MoreSamples.no_ok))
       Samples.client (BodyText (JSON_stringify Samples.report) (Some Samples.report)) []
     = (Fulfilled {| r_status := 401;
                     r_headers := {["content-type" := "application/json"]};
                     r_body := JSON_stringify MoreSamples.no_ok |},
        [{| url := "http://localhost:8099/callback";
            init := {| method := POST;
                       headers := <["x-callback-secret" := "hush"]> json_headers;
                       body := Some (JSON_stringify Samples.report) |} |}]).
Proof.
  split.
  - apply (callback_route_status_by_truthiness Fetch
             (Samples.always (Samples.answer 200 "OK" MoreSamples.ok_one))
             Samples.client _ Samples.report MoreSamples.ok_one [] _).
    + reflexivity.
    + discriminate.
  - apply (callback_route_status_by_truthiness Fetch
             (Samples.always (Samples.answer 200 "OK" MoreSamples.no_ok))
             Samples.client _ Samples.report MoreSamples.no_ok [] _).
    + reflexivity.
    + discriminate.
Defined.

(** X16: a response of the callback handler has status 200 or 401, the
    JSON content type, and as body the serialisation of what [callback]
    returned for the parsed request body. *)
Theorem callback_route_response_shape
    (rev : Revision) (net : Network) (c : HiveClient) (req : Body)
    (wire wire' : list Request) (resp : Response) :
  createNextCallbackRoute rev net c req wire = (Fulfilled resp, wire') ->
  (r_status resp = 200 \/ r_status resp = 401)
  /\ r_headers resp = {["content-type" := "application/json"]}
  /\ exists raw report data,
       req = BodyText raw (Some report)
       /\ callback rev net c report wire = (Fulfilled data, wire')
       /\ r_body resp = JSON_stringify data.
Proof.
  unfold createNextCallbackRoute, await, json_of.
  destruct req as [|raw [report|]]; try done. cbn -[callback JSON_stringify].
  destruct (callback rev net c report wire) as [[data|e] w] eqn:Hcall; [|done].
  destruct data as [|b|n|s|items|o]; cbn -[JSON_stringify]; try done;
    intros [= <- <-]; cbn -[JSON_stringify];
    (split_and!; [|done|by eexists raw, report, _]);
    try (by right).
  by destruct (truthy (assoc "ok" o)); [left|right].
Qed.

Lemma callback_route_response_shape_witness :
  r_status {| r_status := 401;
              r_headers := {["content-type" := "application/json"]};
              r_body := JSON_stringify (Samples.refused "ClaimMismatch") |} = 200
  \/ r_status {| r_status := 401;
                 r_headers := {["content-type" := "application/json"]};
                 r_body := JSON_stringify (Samples.refused "ClaimMismatch") |} = 401.
Proof.
  destruct (callback_route_response_shape Fetch
              (Samples.always (Samples.answer 200 "OK" (Samples.refused "ClaimMismatch")))
              Samples.client
              (BodyText (JSON_stringify Samples.report) (Some Samples.report)) []
              [{| url := "http://localhost:8099/callback";
                  init := {| method := POST;
                             headers := <["x-callback-secret" := "hush"]> json_headers;
                             body := Some (JSON_stringify Samples.report) |} |}]
              {| r_status := 401;
                 r_headers := {["content-type" := "application/json"]};
                 r_body := JSON_stringify (Samples.refused "ClaimMismatch") |})
    as (Hstatus & _).
  - reflexivity.
  - exact Hstatus.
Defined.

(** X17: the claim handler has no error path of its own: when
    [client.claim()] rejects, the handler rejects with the same error and
    returns no response, in particular none with status 200. *)
Theorem claim_route_propagates_errors
    (rev : Revision) (net : Network) (c : HiveClient)
    (wire wire' : list Request) (e : Thrown) :
  claim rev net c wire = (Rejected e, wire') ->
  createNextClaimRoute rev net c wire = (Rejected e, wire').
Proof.
  intros Hclaim. unfold createNextClaimRoute, await. by rewrite Hclaim.
Qed.

Lemma claim_route_propagates_errors_witness :
  createNextClaimRoute Fetch
    (Samples.always (Samples.answer 503 "Service Unavailable" Samples.an_error))
    Samples.client []
  = (Rejected (Error ("HTTP 503 Service Unavailable: "
                        +:+ JSON_stringify Samples.an_error)),
     [{| url := "http://localhost:8099/claim";
         init := {| method := POST; headers := ∅; body := None |} |}]).
Proof.
  apply (claim_route_propagates_errors Fetch
           (Samples.always (Samples.answer 503 "Service Unavailable" Samples.an_error))
           Samples.client [] _ _).
  reflexivity.
Defined.

